(** * Recursive low-pass filters of ignition-math: [Filter.hh]

    A shallow embedding of [include/ignition/math/Filter.hh] and the
    properties of its coefficient derivation and update rules.

    Conventions of the embedding.
    - A C++ [double] is idealised as a real number ([R]): rounding,
      infinities and NaN are outside the model, [M_PI] is [PI], and
      [exp], [tan] are the real functions.  Where the source divides,
      the statements carry the hypothesis that the divisor is not zero.
      Every statement about the value of a gain or of an output is a
      statement in exact real arithmetic.  What the doubles themselves
      do where [exp] saturates is in the separate module
      [OnePoleDouble], over the binary64 numbers of [PrimFloat].
    - A parameter [const T &] is passed by value where the body cannot
      tell a reference from a value; [BiQuad::Process] can, and has a
      second embedding, [BiQuad.ProcessRef], whose argument is the
      object the reference is bound to.
    - A class is a record of its data members; a member function is a
      function from the object before the call to the object after it
      (paired with the returned value when there is one).  Assignments
      are threaded in source order through a rebound [this].
    - The template parameter [T] of the signal is a type equipped with
      the three operators the update rules use ([double * T], [T + T],
      [T - T]), as a type class. *)

From Stdlib Require Import Reals Lra List.
From Stdlib Require Floats.PrimFloat.
Import ListNotations.

Open Scope R_scope.

(** ** The operators required of the signal type [T] *)

Class Signal (T : Type) : Type := {
  scale : R -> T -> T;      (* double * T *)
  plus  : T -> T -> T;      (* T + T      *)
  minus : T -> T -> T       (* T - T      *)
}.

Declare Scope signal_scope.
Delimit Scope signal_scope with sig.
Infix "*:" := scale (at level 40, left associativity) : signal_scope.
Infix "+:" := plus (at level 50, left associativity) : signal_scope.
Infix "-:" := minus (at level 50, left associativity) : signal_scope.

(** [Filter<double>], [OnePole<double>], [BiQuad<double>]. *)
#[export] Instance Signal_double : Signal R :=
  {| scale := Rmult; plus := Rplus; minus := Rminus |}.

(** ** [class Filter<T>] *)

Module Filter.

Record t (T : Type) : Type := mk { y0 : T }.
Arguments mk {T} _.
Arguments y0 {T} _.

Section Members.
Context {T : Type}.

(** [virtual void SetValue(const T &_val) { y0 = _val; }] *)
Definition SetValue (this : t T) (_val : T) : t T :=
  mk _val.

(** [const T& GetValue() { return y0; }] *)
Definition GetValue (this : t T) : T := y0 this.

End Members.

End Filter.

(** ** [class OnePole<T> : public Filter<T>] *)

Module OnePole.

Record t (T : Type) : Type := mk {
  base : Filter.t T;     (* the Filter<T> subobject *)
  a0 : R;                (* input gain *)
  b1 : R                 (* gain of the feedback *)
}.
Arguments mk {T} _ _ _.
Arguments base {T} _.
Arguments a0 {T} _.
Arguments b1 {T} _.

Section Members.
Context {T : Type}.

Definition y0 (this : t T) : T := Filter.y0 (base this).

Definition set_y0 (v : T) (this : t T) : t T :=
  mk (Filter.mk v) (a0 this) (b1 this).
Definition set_a0 (v : R) (this : t T) : t T :=
  mk (base this) v (b1 this).
Definition set_b1 (v : R) (this : t T) : t T :=
  mk (base this) (a0 this) v.

(** Inherited from [Filter<T>]. *)
Definition SetValue (this : t T) (_val : T) : t T :=
  mk (Filter.SetValue (base this) _val) (a0 this) (b1 this).

Definition GetValue (this : t T) : T := Filter.GetValue (base this).

(** [b1 = exp(-2.0 * M_PI * _fc / _fs); a0 = 1.0 - b1;] *)
Definition SetFc (this : t T) (_fc _fs : R) : t T :=
  let this := set_b1 (exp (-2 * PI * _fc / _fs)) this in
  let this := set_a0 (1 - b1 this) this in
  this.

(** [OnePole() = default]: the gains have the member initialiser
    [= 0]; [y0] is default-initialised, [init] is the value this
    leaves in it. *)
Definition OnePole0 (init : T) : t T :=
  mk (Filter.mk init) 0 0.

(** [OnePole(double _fc, double _fs) { this->SetFc(_fc, _fs); }] *)
Definition OnePole2 (init : T) (_fc _fs : R) : t T :=
  SetFc (OnePole0 init) _fc _fs.

(** [this->y0 = a0 * _x + b1 * this->y0; return this->y0;]
    [_x] is read once, before [y0] is written: a reference bound to
    [y0] itself and a copy of its value give the same result. *)
Definition Process `{Signal T} (this : t T) (_x : T) : T * t T :=
  let this := set_y0 (a0 this *: _x +: b1 this *: y0 this)%sig this in
  (y0 this, this).

(** A caller invoking [Process(_x)] [n] times with the same sample. *)
Fixpoint feed `{Signal T} (n : nat) (this : t T) (_x : T) : t T :=
  match n with
  | O => this
  | S n' => feed n' (snd (Process this _x)) _x
  end.

End Members.

End OnePole.

(** ** [class OnePoleQuaternion : public OnePole<math::Quaterniond>] *)

Module OnePoleQuaternion.

(** Modelled from the spec: [ignition/math/Quaternion.hh] is not part
    of the sources at hand.  An orientation is a quaternion of four
    real components, built as [Quaterniond(w, x, y, z)]; it is a valid
    orientation when its norm is one. *)
Record Quaterniond : Type := mkQ { qw : R; qx : R; qy : R; qz : R }.

Definition norm2 (q : Quaterniond) : R :=
  qw q * qw q + qx q * qx q + qy q * qy q + qz q * qz q.

Definition unit (q : Quaterniond) : Prop := norm2 q = 1.

(** [math::Quaterniond(1, 0, 0, 0)] *)
Definition identity : Quaterniond := mkQ 1 0 0 0.

Definition t : Type := OnePole.t Quaterniond.

Section Members.
(** The collaborator [math::Quaterniond::Slerp(t, from, to)]. *)
Variable Slerp : R -> Quaterniond -> Quaterniond -> Quaterniond.

(** [OnePoleQuaternion() { this->SetValue(Quaterniond(1, 0, 0, 0)); }]
    run after the base constructor [OnePole<Quaterniond>()]. *)
Definition OnePoleQuaternion0 (init : Quaterniond) : t :=
  OnePole.SetValue (OnePole.OnePole0 init) identity.

(** [OnePoleQuaternion(double _fc, double _fs)
       : OnePole<math::Quaterniond>(_fc, _fs)
     { this->SetValue(Quaterniond(1, 0, 0, 0)); }] *)
Definition OnePoleQuaternion2 (init : Quaterniond) (_fc _fs : R) : t :=
  OnePole.SetValue (OnePole.OnePole2 init _fc _fs) identity.

(** [y0 = math::Quaterniond::Slerp(a0, y0, _x); return y0;] *)
Definition Process (this : t) (_x : Quaterniond) : Quaterniond * t :=
  let this :=
    OnePole.set_y0 (Slerp (OnePole.a0 this) (OnePole.y0 this) _x) this in
  (OnePole.y0 this, this).

(** A caller feeding the samples [xs] in order. *)
Definition feed (this : t) (xs : list Quaterniond) : t :=
  fold_left (fun f x => snd (Process f x)) xs this.

End Members.

End OnePoleQuaternion.

(** ** [class BiQuad<T> : public Filter<T>] *)

Module BiQuad.

Record t (T : Type) : Type := mk {
  base : Filter.t T;                 (* the Filter<T> subobject *)
  a0 : R; a1 : R; a2 : R;            (* input gain coefficients *)
  b0 : R; b1 : R; b2 : R;            (* feedback coefficients *)
  x1 : T; x2 : T; y1 : T; y2 : T     (* past inputs and outputs *)
}.
Arguments mk {T} _ _ _ _ _ _ _ _ _ _ _.
Arguments base {T} _.
Arguments a0 {T} _.
Arguments a1 {T} _.
Arguments a2 {T} _.
Arguments b0 {T} _.
Arguments b1 {T} _.
Arguments b2 {T} _.
Arguments x1 {T} _.
Arguments x2 {T} _.
Arguments y1 {T} _.
Arguments y2 {T} _.

Section Members.
Context {T : Type}.

Definition y0 (this : t T) : T := Filter.y0 (base this).

Definition set_y0 (v : T) (f : t T) : t T :=
  mk (Filter.mk v) (a0 f) (a1 f) (a2 f) (b0 f) (b1 f) (b2 f)
     (x1 f) (x2 f) (y1 f) (y2 f).
Definition set_a0 (v : R) (f : t T) : t T :=
  mk (base f) v (a1 f) (a2 f) (b0 f) (b1 f) (b2 f)
     (x1 f) (x2 f) (y1 f) (y2 f).
Definition set_a1 (v : R) (f : t T) : t T :=
  mk (base f) (a0 f) v (a2 f) (b0 f) (b1 f) (b2 f)
     (x1 f) (x2 f) (y1 f) (y2 f).
Definition set_a2 (v : R) (f : t T) : t T :=
  mk (base f) (a0 f) (a1 f) v (b0 f) (b1 f) (b2 f)
     (x1 f) (x2 f) (y1 f) (y2 f).
Definition set_b0 (v : R) (f : t T) : t T :=
  mk (base f) (a0 f) (a1 f) (a2 f) v (b1 f) (b2 f)
     (x1 f) (x2 f) (y1 f) (y2 f).
Definition set_b1 (v : R) (f : t T) : t T :=
  mk (base f) (a0 f) (a1 f) (a2 f) (b0 f) v (b2 f)
     (x1 f) (x2 f) (y1 f) (y2 f).
Definition set_b2 (v : R) (f : t T) : t T :=
  mk (base f) (a0 f) (a1 f) (a2 f) (b0 f) (b1 f) v
     (x1 f) (x2 f) (y1 f) (y2 f).
Definition set_x1 (v : T) (f : t T) : t T :=
  mk (base f) (a0 f) (a1 f) (a2 f) (b0 f) (b1 f) (b2 f)
     v (x2 f) (y1 f) (y2 f).
Definition set_x2 (v : T) (f : t T) : t T :=
  mk (base f) (a0 f) (a1 f) (a2 f) (b0 f) (b1 f) (b2 f)
     (x1 f) v (y1 f) (y2 f).
Definition set_y1 (v : T) (f : t T) : t T :=
  mk (base f) (a0 f) (a1 f) (a2 f) (b0 f) (b1 f) (b2 f)
     (x1 f) (x2 f) v (y2 f).
Definition set_y2 (v : T) (f : t T) : t T :=
  mk (base f) (a0 f) (a1 f) (a2 f) (b0 f) (b1 f) (b2 f)
     (x1 f) (x2 f) (y1 f) v.

(** The six coefficients of an instance, in declaration order. *)
Definition coefficients (this : t T) : R * R * R * R * R * R :=
  (a0 this, a1 this, a2 this, b0 this, b1 this, b2 this).

(** The retained output and the four history slots. *)
Definition history (this : t T) : T * T * T * T * T :=
  (y0 this, x1 this, x2 this, y1 this, y2 this).

Definition GetValue (this : t T) : T := Filter.GetValue (base this).

(** [SetFc(double _fc, double _fs, double _q)] *)
Definition SetFc3 (this : t T) (_fc _fs _q : R) : t T :=
  let k := tan (PI * _fc / _fs) in
  let kQuadDenom := k * k + k / _q + 1 in
  let this := set_a0 (k * k / kQuadDenom) this in
  let this := set_a1 (2 * a0 this) this in
  let this := set_a2 (a0 this) this in
  let this := set_b0 1 this in
  let this := set_b1 (2 * (k * k - 1) / kQuadDenom) this in
  let this := set_b2 ((k * k - k / _q + 1) / kQuadDenom) this in
  this.

(** [SetFc(double _fc, double _fs) { this->SetFc(_fc, _fs, 0.5); }] *)
Definition SetFc (this : t T) (_fc _fs : R) : t T :=
  SetFc3 this _fc _fs 0.5.

(** [this->y0 = this->y1 = this->y2 = this->x1 = this->x2 = _val;]
    The chain assigns from the right. *)
Definition SetValue (this : t T) (_val : T) : t T :=
  let this := set_x2 _val this in
  let this := set_x1 (x2 this) this in
  let this := set_y2 (x1 this) this in
  let this := set_y1 (y2 this) this in
  let this := set_y0 (y1 this) this in
  this.

(** [Process(const T &_x)] called on a sample held outside the
    instance: [_x] keeps its value through the body and is passed here
    by value.  The call on any reference is [ProcessRef] below. *)
Definition Process `{Signal T} (this : t T) (_x : T) : T * t T :=
  let this :=
    set_y0 (a0 this *: _x +:
            a1 this *: x1 this +:
            a2 this *: x2 this -:
            b1 this *: y1 this -:
            b2 this *: y2 this)%sig this in
  let this := set_x2 (x1 this) this in
  let this := set_x1 _x this in
  let this := set_y2 (y1 this) this in
  let this := set_y1 (y0 this) this in
  (y0 this, this).

(** What the parameter [const T &_x] of [Process] can be bound to: an
    object outside the instance, or the retained output [y0], the one
    member the class hands out by reference ([GetValue()] and
    [Process()] return [const T&] to it; the history members are
    protected and no function returns a reference to them). *)
Inductive sample : Type :=
| Outside (x : T)
| RetainedOutput.

(** The value read through the reference in the state [this]. *)
Definition deref (this : t T) (_x : sample) : T :=
  match _x with
  | Outside x => x
  | RetainedOutput => y0 this
  end.

(** [Process(const T &_x)] on a reference: [_x] is read twice, once
    for the output and once, after [y0] has been written, for [x1]. *)
Definition ProcessRef `{Signal T} (this : t T) (_x : sample) : T * t T :=
  let this :=
    set_y0 (a0 this *: deref this _x +:
            a1 this *: x1 this +:
            a2 this *: x2 this -:
            b1 this *: y1 this -:
            b2 this *: y2 this)%sig this in
  let this := set_x2 (x1 this) this in
  let this := set_x1 (deref this _x) this in
  let this := set_y2 (y1 this) this in
  let this := set_y1 (y0 this) this in
  (y0 this, this).

(** [BiQuad() = default].  The member declaration
    [double a0, a1, a2, b0, b1, b2 = 0;] gives an initialiser to
    [b2] alone; every other member is left as the storage [mem]
    holds it. *)
Definition BiQuad0 (mem : t T) : t T :=
  set_b2 0 mem.

(** [BiQuad(double _fc, double _fs) { this->SetFc(_fc, _fs); }] *)
Definition BiQuad2 (mem : t T) (_fc _fs : R) : t T :=
  SetFc (BiQuad0 mem) _fc _fs.

(** Construction from a list of [double] arguments: the class
    declares the two constructors above and no other, so any other
    argument list selects no constructor. *)
Definition construct (mem : t T) (args : list R) : option (t T) :=
  match args with
  | [] => Some (BiQuad0 mem)
  | [_fc; _fs] => Some (BiQuad2 mem _fc _fs)
  | _ => None
  end.

(** The member functions a caller may invoke on an instance. *)
Inductive call : Type :=
| CallSetFc (_fc _fs : R)
| CallSetFc3 (_fc _fs _q : R)
| CallSetValue (_val : T)
| CallProcess (_x : T).

Definition is_SetFc (c : call) : bool :=
  match c with
  | CallSetFc _ _ | CallSetFc3 _ _ _ => true
  | CallSetValue _ | CallProcess _ => false
  end.

Definition invoke `{Signal T} (this : t T) (c : call) : t T :=
  match c with
  | CallSetFc _fc _fs => SetFc this _fc _fs
  | CallSetFc3 _fc _fs _q => SetFc3 this _fc _fs _q
  | CallSetValue _val => SetValue this _val
  | CallProcess _x => snd (Process this _x)
  end.

(** The instance after a sequence of calls, in order. *)
Definition run `{Signal T} (this : t T) (cs : list call) : t T :=
  fold_left invoke cs this.

End Members.

Arguments call : clear implicits.
Arguments sample : clear implicits.

End BiQuad.

(** ** Concrete instances used in the examples *)

(** Storage holding zero in every member of a [BiQuad<double>], as
    zero-initialisation leaves it. *)
Definition zero_mem : BiQuad.t R :=
  BiQuad.mk (Filter.mk 0) 0 0 0 0 0 0 0 0 0 0.

(** An interpolation meeting the contract required of [Slerp]: the
    linear blend [p*(1-t) + q*t] renormalised, and [p] itself where the
    blend vanishes. *)
Definition nlerp (t : R) (p q : OnePoleQuaternion.Quaterniond)
    : OnePoleQuaternion.Quaterniond :=
  let blend :=
    OnePoleQuaternion.mkQ
      (OnePoleQuaternion.qw p * (1 - t) + OnePoleQuaternion.qw q * t)
      (OnePoleQuaternion.qx p * (1 - t) + OnePoleQuaternion.qx q * t)
      (OnePoleQuaternion.qy p * (1 - t) + OnePoleQuaternion.qy q * t)
      (OnePoleQuaternion.qz p * (1 - t) + OnePoleQuaternion.qz q * t) in
  let n := sqrt (OnePoleQuaternion.norm2 blend) in
  if Req_dec_T (OnePoleQuaternion.norm2 blend) 0 then p
  else
    OnePoleQuaternion.mkQ
      (OnePoleQuaternion.qw blend / n) (OnePoleQuaternion.qx blend / n)
      (OnePoleQuaternion.qy blend / n) (OnePoleQuaternion.qz blend / n).

(** The step-response experiment on a scalar one-pole filter:
    [OnePole<double> f(10, 1000); f.SetValue(0);] followed by repeated
    [f.Process(1)].  [step_response init n] is the value returned by
    call number [n + 1]. *)
Definition step_filter (init : R) : OnePole.t R :=
  OnePole.SetValue (OnePole.OnePole2 init 10 1000) 0.

Definition step_response (init : R) (n : nat) : R :=
  fst (OnePole.Process (OnePole.feed n (step_filter init) 1) 1).

(** ** Callers passing a sequence of samples *)

Section Drivers.
Context {T : Type} `{Signal T}.

(** The samples [xs] passed to [OnePole::Process] in order: the values
    returned, and the instance left behind. *)
Fixpoint OnePole_run (this : OnePole.t T) (xs : list T)
    : list T * OnePole.t T :=
  match xs with
  | [] => ([], this)
  | x :: xs' =>
      let r := OnePole.Process this x in
      let rs := OnePole_run (snd r) xs' in
      (fst r :: fst rs, snd rs)
  end.

(** The same for [BiQuad::Process]. *)
Fixpoint BiQuad_run (this : BiQuad.t T) (xs : list T)
    : list T * BiQuad.t T :=
  match xs with
  | [] => ([], this)
  | x :: xs' =>
      let r := BiQuad.Process this x in
      let rs := BiQuad_run (snd r) xs' in
      (fst r :: fst rs, snd rs)
  end.

(** Calls of [BiQuad::Process] on references, in order. *)
Fixpoint BiQuad_run_ref (this : BiQuad.t T) (rs : list (BiQuad.sample T))
    : list T * BiQuad.t T :=
  match rs with
  | [] => ([], this)
  | r :: rs' =>
      let o := BiQuad.ProcessRef this r in
      let os := BiQuad_run_ref (snd o) rs' in
      (fst o :: fst os, snd os)
  end.

End Drivers.

(** The caller's sequence
    [BiQuad<double> f(1, 4); f.SetValue(0); f.Process(4);
     f.Process(f.GetValue());]
    before and after its last call, which passes the reference that
    [GetValue()] returns. *)
Definition refeed_before (mem : BiQuad.t R) : BiQuad.t R :=
  snd (BiQuad.ProcessRef (BiQuad.SetValue (BiQuad.BiQuad2 mem 1 4) 0)
         (BiQuad.Outside 4)).

Definition refeed_after (mem : BiQuad.t R) : BiQuad.t R :=
  snd (BiQuad.ProcessRef (refeed_before mem) BiQuad.RetainedOutput).

(** ** [OnePole<double>] in double arithmetic *)

Module OnePoleDouble.
Import PrimFloat.
Local Open Scope float_scope.

(** [M_PI]: the binary64 number nearest to pi. *)
Definition M_PI : float := 0x1.921fb54442d18p+1.

(** [exp] of [<cmath>] on doubles, where its value does not depend on
    the implementation: from 710 up e^x exceeds the largest double and
    the result is +infinity; from -746 down e^x is below half the
    smallest positive double and the result is 0; at 0 it is 1.
    Elsewhere the value is left open ([None]). *)
Definition exp (x : float) : option float :=
  if 710 <=? x then Some infinity
  else if x <=? -746 then Some 0
  else if x =? 0 then Some 1
  else None.

Record t : Type := mk { y0 : float; a0 : float; b1 : float }.

(** [OnePole() = default] over storage holding [init] in [y0]. *)
Definition OnePole0 (init : float) : t := mk init 0 0.

(** [b1 = exp(-2.0 * M_PI * _fc / _fs); a0 = 1.0 - b1;]
    [None] where the value of [exp] is left open. *)
Definition SetFc (this : t) (_fc _fs : float) : option t :=
  match exp (-2.0 * M_PI * _fc / _fs) with
  | Some e =>
      let this := mk (y0 this) (a0 this) e in
      let this := mk (y0 this) (1.0 - b1 this) (b1 this) in
      Some this
  | None => None
  end.

End OnePoleDouble.

(** ** [class OnePoleVector3] and [class BiQuadVector3] *)

Module Vector3.

(** Modelled from the spec: [ignition/math/Vector3.hh] is not part of
    the sources at hand.  A vector has three real components, built as
    [Vector3d(x, y, z)]. *)
Record Vector3d : Type := mkV { vx : R; vy : R; vz : R }.

(** [math::Vector3d(0, 0, 0)] *)
Definition zero : Vector3d := mkV 0 0 0.

(** [OnePoleVector3() { this->SetValue(math::Vector3d(0, 0, 0)); }] *)
Definition OnePoleVector3_0 (init : Vector3d) : OnePole.t Vector3d :=
  OnePole.SetValue (OnePole.OnePole0 init) zero.

(** [OnePoleVector3(double _fc, double _fs)
       : OnePole<math::Vector3d>(_fc, _fs)
     { this->SetValue(math::Vector3d(0, 0, 0)); }] *)
Definition OnePoleVector3_2 (init : Vector3d) (_fc _fs : R)
    : OnePole.t Vector3d :=
  OnePole.SetValue (OnePole.OnePole2 init _fc _fs) zero.

(** [BiQuadVector3() { this->SetValue(math::Vector3d(0, 0, 0)); }] *)
Definition BiQuadVector3_0 (mem : BiQuad.t Vector3d) : BiQuad.t Vector3d :=
  BiQuad.SetValue (BiQuad.BiQuad0 mem) zero.

(** [BiQuadVector3(double _fc, double _fs)
       : BiQuad<math::Vector3d>(_fc, _fs)
     { this->SetValue(math::Vector3d(0, 0, 0)); }] *)
Definition BiQuadVector3_2 (mem : BiQuad.t Vector3d) (_fc _fs : R)
    : BiQuad.t Vector3d :=
  BiQuad.SetValue (BiQuad.BiQuad2 mem _fc _fs) zero.

End Vector3.

(** ** Properties of [OnePole] *)



(** ** Properties of [BiQuad]: coefficients *)

(** C1.  After [BiQuad::SetFc(fc, fs, q)] with [fs <> 0] and [q <> 0]
    the six coefficients are those of the bilinear transform: with
    [k = tan(pi*fc/fs)] and [denom = k^2 + k/q + 1],
    [a0 = k^2/denom], [a1 = 2*a0], [a2 = a0], [b0 = 1],
    [b1 = 2*(k^2-1)/denom] and [b2 = (k^2 - k/q + 1)/denom]. *)
Theorem BiQuad_SetFc3_bilinear (T : Type) (this : BiQuad.t T) (fc fs q : R) :
  fs <> 0 -> q <> 0 ->
  let k := tan (PI * fc / fs) in
  let denom := k ^ 2 + k / q + 1 in
  let f := BiQuad.SetFc3 this fc fs q in
  BiQuad.a0 f = k ^ 2 / denom /\
  BiQuad.a1 f = 2 * BiQuad.a0 f /\
  BiQuad.a2 f = BiQuad.a0 f /\
  BiQuad.b0 f = 1 /\
  BiQuad.b1 f = 2 * (k ^ 2 - 1) / denom /\
  BiQuad.b2 f = (k ^ 2 - k / q + 1) / denom.
Proof.
  intros _ _ k denom f.
  assert (Hk : k ^ 2 = k * k) by ring.
  subst denom f; rewrite Hk; cbn; fold k.
  repeat split; reflexivity.
Qed.

Lemma BiQuad_SetFc3_bilinear_witness :
  let k := tan (PI * 10 / 1000) in
  let denom := k ^ 2 + k / 2 + 1 in
  let f := BiQuad.SetFc3 zero_mem 10 1000 2 in
  BiQuad.a0 f = k ^ 2 / denom /\
  BiQuad.a1 f = 2 * BiQuad.a0 f /\
  BiQuad.a2 f = BiQuad.a0 f /\
  BiQuad.b0 f = 1 /\
  BiQuad.b1 f = 2 * (k ^ 2 - 1) / denom /\
  BiQuad.b2 f = (k ^ 2 - k / 2 + 1) / denom.
Proof.
  apply (BiQuad_SetFc3_bilinear R zero_mem 10 1000 2); lra.
Defined.

(** Below the Nyquist limit the argument of [tan] lies strictly between
    [0] and [pi/2], so [k] is positive. *)
Lemma tan_cutoff_pos (fc fs : R) :
  0 < fc -> fc < fs / 2 -> 0 < tan (PI * fc / fs).
Proof.
  intros Hfc Hny.
  assert (Hfs : 0 < fs) by lra.
  pose proof PI_RGT_0 as Hpi.
  assert (Hr : 0 < fc / fs) by (apply Rdiv_lt_0_compat; assumption).
  assert (Hr2 : fc / fs < 1 / 2).
  { apply (Rmult_lt_reg_r fs); [assumption |].
    unfold Rdiv at 1; rewrite Rmult_assoc, Rinv_l by lra. lra. }
  replace (PI * fc / fs) with (PI * (fc / fs)) by (field; lra).
  apply tan_gt_0.
  - apply Rmult_lt_0_compat; assumption.
  - replace (PI / 2) with (PI * (1 / 2)) by field.
    apply Rmult_lt_compat_l; assumption.
Qed.

(** C4.  For [0 < fc < fs/2] and [q > 0] the coefficients set by
    [BiQuad::SetFc(fc, fs, q)] satisfy the unity-DC-gain identity
    [a0 + a1 + a2 = 1 + b1 + b2], in exact real arithmetic. *)
Theorem BiQuad_SetFc3_unity_dc_gain
    (T : Type) (this : BiQuad.t T) (fc fs q : R) :
  0 < fc -> fc < fs / 2 -> 0 < q ->
  let f := BiQuad.SetFc3 this fc fs q in
  BiQuad.a0 f + BiQuad.a1 f + BiQuad.a2 f = 1 + BiQuad.b1 f + BiQuad.b2 f.
Proof.
  intros Hfc Hny Hq f; subst f; cbn.
  pose proof (tan_cutoff_pos fc fs Hfc Hny) as Hk.
  set (k := tan (PI * fc / fs)) in *.
  assert (Hkkq : 0 < k * k * q)
    by (apply Rmult_lt_0_compat; [apply Rmult_lt_0_compat |]; assumption).
  field; split; lra.
Qed.

Lemma BiQuad_SetFc3_unity_dc_gain_witness :
  let f := BiQuad.SetFc3 zero_mem 10 1000 0.5 in
  BiQuad.a0 f + BiQuad.a1 f + BiQuad.a2 f = 1 + BiQuad.b1 f + BiQuad.b2 f.
Proof.
  apply (BiQuad_SetFc3_unity_dc_gain R zero_mem 10 1000 0.5); lra.
Defined.

(** C8 (as amended).  Configuring with the default Q, through the
    constructor [BiQuad(fc, fs)] or through the two-argument
    [SetFc(fc, fs)], gives the coefficients that [SetFc(fc, fs, 0.5)]
    gives on any instance; the class has no constructor taking a Q. *)
Theorem BiQuad_default_Q
    (T : Type) (mem this other : BiQuad.t T) (fc fs : R) :
  BiQuad.construct mem [fc; fs] = Some (BiQuad.BiQuad2 mem fc fs) /\
  BiQuad.coefficients (BiQuad.BiQuad2 mem fc fs)
    = BiQuad.coefficients (BiQuad.SetFc3 other fc fs 0.5) /\
  BiQuad.coefficients (BiQuad.SetFc this fc fs)
    = BiQuad.coefficients (BiQuad.SetFc3 other fc fs 0.5) /\
  (forall q : R, BiQuad.construct mem [fc; fs; q] = None).
Proof.
  repeat split.
Qed.

(** C8 as stated fails on its third route: an instance cannot be built
    as [BiQuad(fc, fs, 0.5)]. *)
Lemma BiQuad_construct3_counterexample :
  ~ (exists f : BiQuad.t R,
       BiQuad.construct zero_mem [10; 1000; 0.5] = Some f /\
       BiQuad.coefficients f
         = BiQuad.coefficients (BiQuad.SetFc3 zero_mem 10 1000 0.5)).
Proof.
  intros [f [Hf _]]; cbn in Hf; discriminate Hf.
Qed.

(** ** Properties of [BiQuad]: state update *)

(** A sample held outside the instance is the by-value call. *)
Lemma ProcessRef_Outside (T : Type) (S : Signal T) (this : BiQuad.t T) (x : T) :
  BiQuad.ProcessRef this (BiQuad.Outside x) = BiQuad.Process this x.
Proof.
  reflexivity.
Qed.

(** At a quarter of the sample rate [k = tan(pi/4) = 1], and the default
    Q gives the coefficients [(1/4, 1/2, 1/4, 1, 0, 0)]. *)
Lemma quarter_rate_coefficients (T : Type) (this : BiQuad.t T) :
  let g := BiQuad.SetFc this 1 4 in
  BiQuad.a0 g = 1 / 4 /\ BiQuad.a1 g = 1 / 2 /\ BiQuad.a2 g = 1 / 4 /\
  BiQuad.b1 g = 0 /\ BiQuad.b2 g = 0.
Proof.
  unfold BiQuad.SetFc, BiQuad.SetFc3; cbn.
  replace (PI * 1 / 4) with (PI / 4) by field.
  rewrite tan_PI4.
  replace 0.5 with (1 / 2) by lra.
  repeat split; field.
Qed.

(** C3.  [BiQuad::Process(x)] computes
    [a0*x + a1*x1 + a2*x2 - b1*y1 - b2*y2] from the history before the
    call, returns it and retains it as [GetValue()], and shifts
    [x2 <- x1], [y2 <- y1], [y1 <- output].  [x1] receives the sample
    when the argument is an object outside the instance; when the
    argument is the reference to the retained output, [x1] receives the
    new output instead, since [y0] is written before [x1 = _x] reads
    [_x]: in [f.Process(4); f.Process(f.GetValue())] on
    [BiQuad<double> f(1, 4)] reset to 0, the last sample is 1 and [x1]
    ends as 9/4. *)
Theorem BiQuad_Process_by_reference (T : Type) (S : Signal T) :
  (forall (this : BiQuad.t T) (r : BiQuad.sample T),
     let x := BiQuad.deref this r in
     let output :=
       (BiQuad.a0 this *: x +:
        BiQuad.a1 this *: BiQuad.x1 this +:
        BiQuad.a2 this *: BiQuad.x2 this -:
        BiQuad.b1 this *: BiQuad.y1 this -:
        BiQuad.b2 this *: BiQuad.y2 this)%sig in
     let ret := fst (BiQuad.ProcessRef this r) in
     let f := snd (BiQuad.ProcessRef this r) in
     ret = output /\
     BiQuad.GetValue f = output /\
     BiQuad.x2 f = BiQuad.x1 this /\
     BiQuad.y2 f = BiQuad.y1 this /\
     BiQuad.y1 f = output /\
     BiQuad.x1 f = match r with
                   | BiQuad.Outside _ => x
                   | BiQuad.RetainedOutput => output
                   end) /\
  (forall mem : BiQuad.t R,
     BiQuad.deref (refeed_before mem) BiQuad.RetainedOutput = 1 /\
     BiQuad.x1 (refeed_after mem) = 9 / 4 /\
     BiQuad.x1 (refeed_after mem)
       <> BiQuad.deref (refeed_before mem) BiQuad.RetainedOutput).
Proof.
  split.
  - intros this r; destruct r; cbn; repeat split.
  - intros mem.
    pose proof (quarter_rate_coefficients R (BiQuad.BiQuad0 mem))
      as [Ha0 [Ha1 [Ha2 [Hb1 Hb2]]]].
    unfold refeed_after, refeed_before, BiQuad.BiQuad2.
    set (g := BiQuad.SetFc (BiQuad.BiQuad0 mem) 1 4) in *.
    clearbody g.
    unfold BiQuad.ProcessRef, BiQuad.SetValue, BiQuad.deref, BiQuad.y0; cbn.
    rewrite Ha0, Ha1, Ha2, Hb1, Hb2.
    repeat split; lra.
Qed.

(** C6.  [Filter::SetValue(v)], which [OnePole] inherits, makes
    [GetValue()] return [v] and resets the retained output only;
    [BiQuad::SetValue(v)] makes [GetValue()] return [v] and sets the
    four history slots to [v] as well, so the next [Process] call
    returns what it returns on an instance whose whole history is
    [v]. *)
Theorem SetValue_resets (T : Type) (S : Signal T) (v : T) :
  (forall f : Filter.t T, Filter.GetValue (Filter.SetValue f v) = v) /\
  (forall f : OnePole.t T,
     OnePole.GetValue (OnePole.SetValue f v) = v /\
     OnePole.a0 (OnePole.SetValue f v) = OnePole.a0 f /\
     OnePole.b1 (OnePole.SetValue f v) = OnePole.b1 f) /\
  (forall f : BiQuad.t T,
     let g := BiQuad.SetValue f v in
     BiQuad.GetValue g = v /\
     BiQuad.y1 g = v /\ BiQuad.y2 g = v /\
     BiQuad.x1 g = v /\ BiQuad.x2 g = v /\
     BiQuad.coefficients g = BiQuad.coefficients f /\
     forall x : T,
       fst (BiQuad.Process g x)
       = (BiQuad.a0 f *: x +: BiQuad.a1 f *: v +: BiQuad.a2 f *: v
          -: BiQuad.b1 f *: v -: BiQuad.b2 f *: v)%sig /\
       forall y : T,
         BiQuad.Process g x
         = BiQuad.Process
             (BiQuad.mk (Filter.mk y)
                (BiQuad.a0 f) (BiQuad.a1 f) (BiQuad.a2 f)
                (BiQuad.b0 f) (BiQuad.b1 f) (BiQuad.b2 f) v v v v) x).
Proof.
  repeat split.
Qed.

(** C10.  Each mutator touches its own part of the state: [SetFc]
    leaves the retained output (and the [BiQuad] history) as it was,
    [SetValue] and [Process] leave every coefficient as it was. *)
Theorem mutators_frame (T : Type) (S : Signal T) :
  (forall (f : OnePole.t T) (fc fs : R),
     OnePole.y0 (OnePole.SetFc f fc fs) = OnePole.y0 f) /\
  (forall (f : OnePole.t T) (v : T),
     OnePole.a0 (OnePole.SetValue f v) = OnePole.a0 f /\
     OnePole.b1 (OnePole.SetValue f v) = OnePole.b1 f) /\
  (forall (f : OnePole.t T) (x : T),
     OnePole.a0 (snd (OnePole.Process f x)) = OnePole.a0 f /\
     OnePole.b1 (snd (OnePole.Process f x)) = OnePole.b1 f) /\
  (forall (f : BiQuad.t T) (fc fs q : R),
     BiQuad.history (BiQuad.SetFc3 f fc fs q) = BiQuad.history f) /\
  (forall (f : BiQuad.t T) (fc fs : R),
     BiQuad.history (BiQuad.SetFc f fc fs) = BiQuad.history f) /\
  (forall (f : BiQuad.t T) (v : T),
     BiQuad.coefficients (BiQuad.SetValue f v) = BiQuad.coefficients f) /\
  (forall (f : BiQuad.t T) (x : T),
     BiQuad.coefficients (snd (BiQuad.Process f x))
     = BiQuad.coefficients f).
Proof.
  repeat split.
Qed.

(** ** Properties of [BiQuad]: the [b0] invariant over call sequences *)

Section B0.
Context {T : Type} `{Signal T}.

(** No member function moves [b0] away from one. *)
Lemma invoke_keeps_b0 (this : BiQuad.t T) (c : BiQuad.call T) :
  BiQuad.b0 this = 1 -> BiQuad.b0 (BiQuad.invoke this c) = 1.
Proof.
  intros Hb; destruct c; cbn; auto.
Qed.

Lemma run_keeps_b0 (cs : list (BiQuad.call T)) :
  forall this : BiQuad.t T,
    BiQuad.b0 this = 1 -> BiQuad.b0 (BiQuad.run this cs) = 1.
Proof.
  induction cs as [| c cs IH]; intros this Hb; cbn.
  - exact Hb.
  - apply IH, invoke_keeps_b0, Hb.
Qed.

(** Either overload of [SetFc] stores one in [b0]. *)
Lemma invoke_SetFc_sets_b0 (this : BiQuad.t T) (c : BiQuad.call T) :
  BiQuad.is_SetFc c = true -> BiQuad.b0 (BiQuad.invoke this c) = 1.
Proof.
  destruct c; cbn; intros Hc; try discriminate Hc; reflexivity.
Qed.

Lemma run_SetFc_sets_b0 (cs : list (BiQuad.call T)) :
  forall this : BiQuad.t T,
    existsb BiQuad.is_SetFc cs = true ->
    BiQuad.b0 (BiQuad.run this cs) = 1.
Proof.
  induction cs as [| c cs IH]; intros this Hex; cbn in *.
  - discriminate Hex.
  - destruct (BiQuad.is_SetFc c) eqn:Hc.
    + apply run_keeps_b0, invoke_SetFc_sets_b0, Hc.
    + apply IH, Hex.
Qed.

(** Without a [SetFc] call [b0] stays what construction left in it. *)
Lemma run_without_SetFc_b0 (cs : list (BiQuad.call T)) :
  forall this : BiQuad.t T,
    existsb BiQuad.is_SetFc cs = false ->
    BiQuad.b0 (BiQuad.run this cs) = BiQuad.b0 this.
Proof.
  induction cs as [| c cs IH]; intros this Hex.
  - reflexivity.
  - cbn [existsb] in Hex.
    apply Bool.orb_false_iff in Hex as [Hc Hcs].
    change (BiQuad.run this (c :: cs))
      with (BiQuad.run (BiQuad.invoke this c) cs).
    rewrite IH by exact Hcs.
    destruct c; cbn in *; try discriminate Hc; reflexivity.
Qed.

End B0.

(** C9 (as amended).  [b0 == 1] holds in every state of an instance
    that was built with a cutoff and sample rate, or on which [SetFc]
    has been called at least once, whatever calls follow. *)
Theorem BiQuad_b0_configured
    (T : Type) (S : Signal T) (mem this : BiQuad.t T)
    (args : list R) (cs : list (BiQuad.call T)) :
  BiQuad.construct mem args = Some this ->
  length args = 2%nat \/ existsb BiQuad.is_SetFc cs = true ->
  BiQuad.b0 (BiQuad.run this cs) = 1.
Proof.
  intros Hctor [Hargs | Hcs].
  - destruct args as [| fc [| fs [| q args]]]; try discriminate Hargs.
    cbn in Hctor; injection Hctor as <-.
    apply run_keeps_b0; reflexivity.
  - apply run_SetFc_sets_b0, Hcs.
Qed.

Lemma BiQuad_b0_configured_witness :
  BiQuad.b0
    (BiQuad.run (BiQuad.BiQuad0 zero_mem)
       [BiQuad.CallProcess 1; BiQuad.CallSetFc 10 1000;
        BiQuad.CallSetValue 3; BiQuad.CallProcess 1]) = 1.
Proof.
  apply (BiQuad_b0_configured R Signal_double zero_mem
           (BiQuad.BiQuad0 zero_mem) []);
    [reflexivity | right; reflexivity].
Defined.

(** C9 as stated fails: after bare construction over zeroed storage,
    and before any [SetFc], [b0] is zero. *)
Lemma BiQuad_bare_b0_counterexample :
  BiQuad.construct zero_mem [] = Some (BiQuad.BiQuad0 zero_mem) /\
  BiQuad.b0 (BiQuad.run (BiQuad.BiQuad0 zero_mem) []) = 0 /\
  BiQuad.b0 (BiQuad.run (BiQuad.BiQuad0 zero_mem) []) <> 1.
Proof.
  cbn; repeat split; lra.
Qed.

(** ** Properties of [OnePoleQuaternion] *)

Lemma norm2_nonneg (q : OnePoleQuaternion.Quaterniond) :
  0 <= OnePoleQuaternion.norm2 q.
Proof.
  unfold OnePoleQuaternion.norm2.
  pose proof (Rle_0_sqr (OnePoleQuaternion.qw q)) as Hw.
  pose proof (Rle_0_sqr (OnePoleQuaternion.qx q)) as Hx.
  pose proof (Rle_0_sqr (OnePoleQuaternion.qy q)) as Hy.
  pose proof (Rle_0_sqr (OnePoleQuaternion.qz q)) as Hz.
  unfold Rsqr in *; lra.
Qed.

(** The renormalised blend has norm one whenever its first argument
    has. *)
Lemma nlerp_unit (t : R) (p q : OnePoleQuaternion.Quaterniond) :
  OnePoleQuaternion.unit p -> OnePoleQuaternion.unit q ->
  OnePoleQuaternion.unit (nlerp t p q).
Proof.
  intros Hp _; unfold nlerp.
  match goal with |- context [Req_dec_T ?a 0] => set (m := a) end.
  destruct (Req_dec_T m 0) as [Hz | Hnz]; [exact Hp |].
  assert (Hm : 0 <= m) by apply norm2_nonneg.
  assert (Hs : sqrt m * sqrt m = m) by (apply sqrt_sqrt; exact Hm).
  assert (Hsn : sqrt m <> 0).
  { intros Hs0; rewrite Hs0 in Hs; lra. }
  unfold OnePoleQuaternion.unit, OnePoleQuaternion.norm2; cbn.
  set (w := OnePoleQuaternion.qw p * (1 - t) + OnePoleQuaternion.qw q * t) in *.
  set (x := OnePoleQuaternion.qx p * (1 - t) + OnePoleQuaternion.qx q * t) in *.
  set (y := OnePoleQuaternion.qy p * (1 - t) + OnePoleQuaternion.qy q * t) in *.
  set (z := OnePoleQuaternion.qz p * (1 - t) + OnePoleQuaternion.qz q * t) in *.
  assert (Hsum : w * w + x * x + y * y + z * z = sqrt m * sqrt m)
    by (rewrite Hs; reflexivity).
  apply (Rmult_eq_reg_r (sqrt m * sqrt m));
    [| apply Rmult_integral_contrapositive_currified; exact Hsn].
  rewrite Rmult_1_l.
  set (s := sqrt m) in *; clearbody s; clearbody w x y z.
  transitivity (w * w + x * x + y * y + z * z);
    [field; exact Hsn | exact Hsum].
Qed.

Section Orientation.
Variable Slerp :
  R -> OnePoleQuaternion.Quaterniond -> OnePoleQuaternion.Quaterniond ->
  OnePoleQuaternion.Quaterniond.
Hypothesis Slerp_unit :
  forall (t : R) (p q : OnePoleQuaternion.Quaterniond),
    OnePoleQuaternion.unit p -> OnePoleQuaternion.unit q ->
    OnePoleQuaternion.unit (Slerp t p q).

Lemma Process_keeps_unit
    (this : OnePoleQuaternion.t) (x : OnePoleQuaternion.Quaterniond) :
  OnePoleQuaternion.unit (OnePole.y0 this) -> OnePoleQuaternion.unit x ->
  OnePoleQuaternion.unit
    (OnePole.y0 (snd (OnePoleQuaternion.Process Slerp this x))).
Proof.
  intros Hy Hx; cbn; apply Slerp_unit; assumption.
Qed.

Lemma feed_keeps_unit (xs : list OnePoleQuaternion.Quaterniond) :
  forall this : OnePoleQuaternion.t,
    OnePoleQuaternion.unit (OnePole.y0 this) ->
    Forall OnePoleQuaternion.unit xs ->
    OnePoleQuaternion.unit
      (OnePole.y0 (OnePoleQuaternion.feed Slerp this xs)).
Proof.
  induction xs as [| x xs IH]; intros this Hy Hxs.
  - exact Hy.
  - inversion Hxs as [| ? ? Hx Hrest]; subst.
    apply (IH (snd (OnePoleQuaternion.Process Slerp this x))).
    + apply Process_keeps_unit; assumption.
    + exact Hrest.
Qed.

End Orientation.

Lemma identity_unit : OnePoleQuaternion.unit OnePoleQuaternion.identity.
Proof.
  unfold OnePoleQuaternion.unit, OnePoleQuaternion.norm2; cbn; ring.
Qed.

(** C5.  [OnePoleQuaternion::Process(x)] stores and returns
    [Slerp(a0, previous output, x)]; provided [Slerp] maps unit-norm
    orientations to a unit-norm orientation, the retained output has
    unit norm after every [Process] call on unit-norm samples, from any
    unit-norm state, the constructed state being the identity
    orientation. *)
Theorem OnePoleQuaternion_Process_unit
    (Slerp : R -> OnePoleQuaternion.Quaterniond ->
             OnePoleQuaternion.Quaterniond -> OnePoleQuaternion.Quaterniond) :
  (forall (t : R) (p q : OnePoleQuaternion.Quaterniond),
     OnePoleQuaternion.unit p -> OnePoleQuaternion.unit q ->
     OnePoleQuaternion.unit (Slerp t p q)) ->
  (forall (this : OnePoleQuaternion.t) (x : OnePoleQuaternion.Quaterniond),
     let output := Slerp (OnePole.a0 this) (OnePole.GetValue this) x in
     fst (OnePoleQuaternion.Process Slerp this x) = output /\
     OnePole.GetValue (snd (OnePoleQuaternion.Process Slerp this x))
       = output) /\
  (forall init : OnePoleQuaternion.Quaterniond,
     OnePole.GetValue (OnePoleQuaternion.OnePoleQuaternion0 init)
       = OnePoleQuaternion.identity) /\
  (forall (init : OnePoleQuaternion.Quaterniond) (fc fs : R),
     OnePole.GetValue (OnePoleQuaternion.OnePoleQuaternion2 init fc fs)
       = OnePoleQuaternion.identity) /\
  OnePoleQuaternion.unit OnePoleQuaternion.identity /\
  (forall (this : OnePoleQuaternion.t)
          (xs : list OnePoleQuaternion.Quaterniond),
     OnePoleQuaternion.unit (OnePole.GetValue this) ->
     Forall OnePoleQuaternion.unit xs ->
     OnePoleQuaternion.unit
       (OnePole.GetValue (OnePoleQuaternion.feed Slerp this xs))).
Proof.
  intros HS; repeat split.
  - apply identity_unit.
  - intros this xs Hy Hxs; apply feed_keeps_unit; assumption.
Qed.

Lemma OnePoleQuaternion_Process_unit_witness :
  (forall (this : OnePoleQuaternion.t) (x : OnePoleQuaternion.Quaterniond),
     let output := nlerp (OnePole.a0 this) (OnePole.GetValue this) x in
     fst (OnePoleQuaternion.Process nlerp this x) = output /\
     OnePole.GetValue (snd (OnePoleQuaternion.Process nlerp this x))
       = output) /\
  (forall init : OnePoleQuaternion.Quaterniond,
     OnePole.GetValue (OnePoleQuaternion.OnePoleQuaternion0 init)
       = OnePoleQuaternion.identity) /\
  (forall (init : OnePoleQuaternion.Quaterniond) (fc fs : R),
     OnePole.GetValue (OnePoleQuaternion.OnePoleQuaternion2 init fc fs)
       = OnePoleQuaternion.identity) /\
  OnePoleQuaternion.unit OnePoleQuaternion.identity /\
  (forall (this : OnePoleQuaternion.t)
          (xs : list OnePoleQuaternion.Quaterniond),
     OnePoleQuaternion.unit (OnePole.GetValue this) ->
     Forall OnePoleQuaternion.unit xs ->
     OnePoleQuaternion.unit
       (OnePole.GetValue (OnePoleQuaternion.feed nlerp this xs))).
Proof.
  exact (OnePoleQuaternion_Process_unit nlerp nlerp_unit).
Defined.

(** ** The step response of the scalar one-pole filter *)

Section StepResponse.
Variable f : OnePole.t R.
Hypothesis unity : OnePole.a0 f = 1 - OnePole.b1 f.

(** [Process] never writes the gains, so feeding keeps them. *)
Lemma feed_gains (n : nat) (x : R) :
  forall g : OnePole.t R,
    OnePole.a0 (OnePole.feed n g x) = OnePole.a0 g /\
    OnePole.b1 (OnePole.feed n g x) = OnePole.b1 g.
Proof.
  induction n as [| n IH]; intros g; cbn [OnePole.feed].
  - split; reflexivity.
  - destruct (IH (snd (OnePole.Process g x))) as [Ha Hb].
    rewrite Ha, Hb; split; reflexivity.
Qed.

(** Closed form of the retained output after [n] unit samples. *)
Lemma feed_one_closed_form (n : nat) :
  forall g : OnePole.t R,
    OnePole.a0 g = 1 - OnePole.b1 g ->
    OnePole.y0 (OnePole.feed n g 1)
    = 1 - OnePole.b1 g ^ n * (1 - OnePole.y0 g).
Proof.
  induction n as [| n IH]; intros g Hg; cbn [OnePole.feed].
  - cbn; ring.
  - rewrite IH by (cbn; exact Hg).
    cbn; rewrite Hg; ring.
Qed.

Lemma Process_one_closed_form (n : nat) :
  fst (OnePole.Process (OnePole.feed n f 1) 1)
  = 1 - OnePole.b1 f ^ S n * (1 - OnePole.y0 f).
Proof.
  destruct (feed_gains n 1 f) as [Ha Hb].
  pose proof (feed_one_closed_form n f unity) as Hy.
  unfold OnePole.Process; cbn [fst snd].
  unfold OnePole.y0 at 1; cbn [OnePole.set_y0 OnePole.base Filter.y0].
  cbn [scale plus Signal_double].
  rewrite Ha, Hb, Hy, unity; cbn [pow]; ring.
Qed.

End StepResponse.

(** The feedback gain for [fc = 10], [fs = 1000] lies strictly between
    zero and one. *)
Lemma step_feedback_gain_range :
  0 < exp (-2 * PI * 10 / 1000) < 1.
Proof.
  split; [apply exp_pos |].
  rewrite <- exp_0; apply exp_increasing.
  pose proof PI_RGT_0; lra.
Qed.

Lemma step_response_closed_form (init : R) (n : nat) :
  step_response init n = 1 - exp (-2 * PI * 10 / 1000) ^ S n.
Proof.
  unfold step_response.
  rewrite Process_one_closed_form by (cbn; reflexivity).
  cbn [step_filter OnePole.SetValue OnePole.OnePole2 OnePole.SetFc
       OnePole.OnePole0 OnePole.set_b1 OnePole.set_a0 OnePole.b1
       OnePole.y0 OnePole.base Filter.SetValue Filter.y0].
  ring.
Qed.

(** C7.  With [SetFc(10, 1000)] and the state set to zero, repeated
    [Process(1)] returns a strictly increasing sequence that never
    exceeds one and converges to one; the first value returned is the
    input gain [1 - exp(-2*pi*10/1000)]. *)
Theorem OnePole_step_response (init : R) :
  let gainIn := 1 - exp (-2 * PI * 10 / 1000) in
  OnePole.a0 (step_filter init) = gainIn /\
  step_response init 0 = gainIn /\
  (forall n : nat, step_response init n < step_response init (S n)) /\
  (forall n : nat, step_response init n <= 1) /\
  Un_cv (step_response init) 1.
Proof.
  pose proof step_feedback_gain_range as [Hb0 Hb1].
  set (b := exp (-2 * PI * 10 / 1000)) in *.
  assert (Hpow : forall n : nat, 0 < b ^ n) by (intros n; apply pow_lt, Hb0).
  cbn zeta; repeat split.
  - rewrite step_response_closed_form; fold b; cbn [pow]; ring.
  - intros n; rewrite !step_response_closed_form; fold b.
    specialize (Hpow (S n)).
    change (b ^ S (S n)) with (b * b ^ S n).
    assert (b * b ^ S n < 1 * b ^ S n)
      by (apply Rmult_lt_compat_r; assumption).
    lra.
  - intros n; rewrite step_response_closed_form; fold b.
    specialize (Hpow (S n)); lra.
  - intros eps Heps.
    assert (Habs : Rabs b < 1) by (rewrite Rabs_pos_eq; lra).
    destruct (pow_lt_1_zero b Habs eps Heps) as [N HN].
    exists N; intros n Hn.
    rewrite step_response_closed_form; fold b.
    unfold R_dist.
    replace (1 - b ^ S n - 1) with (- b ^ S n) by ring.
    rewrite Rabs_Ropp; apply HN.
    apply Nat.le_trans with n; [exact Hn | apply Nat.le_succ_diag_r].
Qed.

(** ** Further properties of [OnePole]: the gains *)

(** The exponent of the feedback gain is negative for positive cutoff
    and sample rate. *)
Lemma OnePole_exponent_neg (fc fs : R) :
  0 < fc -> 0 < fs -> -2 * PI * fc / fs < 0.
Proof.
  intros Hfc Hfs.
  pose proof PI_RGT_0 as Hpi.
  assert (Hq : 0 < fc / fs) by (apply Rdiv_lt_0_compat; assumption).
  assert (Hp : 0 < PI * (fc / fs)) by (apply Rmult_lt_0_compat; assumption).
  replace (-2 * PI * fc / fs) with (- (2 * (PI * (fc / fs))))
    by (field; lra).
  lra.
Qed.

Lemma OnePole_feedback_range (fc fs : R) :
  0 < fc -> 0 < fs -> 0 < exp (-2 * PI * fc / fs) < 1.
Proof.
  intros Hfc Hfs; split; [apply exp_pos |].
  rewrite <- exp_0; apply exp_increasing, OnePole_exponent_neg; assumption.
Qed.

(** X1.  In exact real arithmetic, for a positive cutoff and sample
    rate, [OnePole::SetFc] leaves both gains strictly between zero and
    one. *)
Theorem OnePole_SetFc_gain_range
    (T : Type) (this : OnePole.t T) (fc fs : R) :
  0 < fc -> 0 < fs ->
  let f := OnePole.SetFc this fc fs in
  0 < OnePole.b1 f < 1 /\ 0 < OnePole.a0 f < 1.
Proof.
  intros Hfc Hfs f; subst f; cbn.
  pose proof (OnePole_feedback_range fc fs Hfc Hfs) as [H0 H1].
  repeat split; lra.
Qed.

Lemma OnePole_SetFc_gain_range_witness :
  let f := OnePole.SetFc (OnePole.OnePole0 0) 10 1000 in
  0 < OnePole.b1 f < 1 /\ 0 < OnePole.a0 f < 1.
Proof.
  apply (OnePole_SetFc_gain_range R (OnePole.OnePole0 0) 10 1000); lra.
Defined.

(** X2.  In exact real arithmetic: at a fixed positive sample rate a
    higher cutoff gives a smaller feedback gain and a larger input
    gain. *)
Theorem OnePole_SetFc_monotone
    (T : Type) (this other : OnePole.t T) (fc1 fc2 fs : R) :
  0 < fs -> fc1 < fc2 ->
  OnePole.b1 (OnePole.SetFc this fc2 fs)
    < OnePole.b1 (OnePole.SetFc other fc1 fs) /\
  OnePole.a0 (OnePole.SetFc other fc1 fs)
    < OnePole.a0 (OnePole.SetFc this fc2 fs).
Proof.
  intros Hfs Hlt; cbn.
  assert (Hexp : exp (-2 * PI * fc2 / fs) < exp (-2 * PI * fc1 / fs)).
  { apply exp_increasing.
    pose proof PI_RGT_0 as Hpi.
    assert (Hi : 0 < / fs) by (apply Rinv_0_lt_compat; exact Hfs).
    unfold Rdiv; apply Rmult_lt_compat_r; [exact Hi |].
    assert (PI * fc1 < PI * fc2) by (apply Rmult_lt_compat_l; assumption).
    lra. }
  split; lra.
Qed.

Lemma OnePole_SetFc_monotone_witness :
  OnePole.b1 (OnePole.SetFc (OnePole.OnePole0 0) 20 1000)
    < OnePole.b1 (OnePole.SetFc (OnePole.OnePole0 0) 10 1000) /\
  OnePole.a0 (OnePole.SetFc (OnePole.OnePole0 0) 10 1000)
    < OnePole.a0 (OnePole.SetFc (OnePole.OnePole0 0) 20 1000).
Proof.
  apply (OnePole_SetFc_monotone R (OnePole.OnePole0 0) (OnePole.OnePole0 0)
           10 20 1000); lra.
Defined.

(** X3.  In exact real arithmetic only the ratio of cutoff to sample
    rate matters: scaling both by the same non-zero factor gives the
    same instance, for [OnePole::SetFc] and for [BiQuad::SetFc]. *)
Theorem SetFc_scale_invariant
    (T : Type) (f : OnePole.t T) (g : BiQuad.t T) (c fc fs q : R) :
  c <> 0 -> fs <> 0 ->
  OnePole.SetFc f (c * fc) (c * fs) = OnePole.SetFc f fc fs /\
  BiQuad.SetFc3 g (c * fc) (c * fs) q = BiQuad.SetFc3 g fc fs q /\
  BiQuad.SetFc g (c * fc) (c * fs) = BiQuad.SetFc g fc fs.
Proof.
  intros Hc Hfs.
  assert (He : -2 * PI * (c * fc) / (c * fs) = -2 * PI * fc / fs)
    by (field; split; assumption).
  assert (Ht : PI * (c * fc) / (c * fs) = PI * fc / fs)
    by (field; split; assumption).
  unfold OnePole.SetFc, BiQuad.SetFc, BiQuad.SetFc3.
  rewrite He, Ht; repeat split.
Qed.

Lemma SetFc_scale_invariant_witness :
  OnePole.SetFc (OnePole.OnePole0 0) (60 * 10) (60 * 1000)
    = OnePole.SetFc (OnePole.OnePole0 0) 10 1000 /\
  BiQuad.SetFc3 zero_mem (60 * 10) (60 * 1000) 2
    = BiQuad.SetFc3 zero_mem 10 1000 2 /\
  BiQuad.SetFc zero_mem (60 * 10) (60 * 1000)
    = BiQuad.SetFc zero_mem 10 1000.
Proof.
  apply (SetFc_scale_invariant R (OnePole.OnePole0 0) zero_mem 60 10 1000 2);
    lra.
Defined.

(** ** Further properties of [OnePole]: the update on scalars *)

Section OnePoleScalar.

(** One call with gains [a0 = 1 - b1], [0 <= b1 <= 1], returns a value
    between the sample and the previous output. *)
Lemma Process_between (g : OnePole.t R) (x lo hi : R) :
  OnePole.a0 g = 1 - OnePole.b1 g ->
  0 <= OnePole.b1 g <= 1 ->
  lo <= OnePole.y0 g <= hi -> lo <= x <= hi ->
  lo <= fst (OnePole.Process g x) <= hi.
Proof.
  intros Ha [Hb0 Hb1] [Hyl Hyh] [Hxl Hxh].
  unfold OnePole.Process; cbn [fst]; unfold OnePole.y0 at 1 3; cbn.
  fold (OnePole.y0 g); rewrite Ha.
  set (b := OnePole.b1 g) in *; set (y := OnePole.y0 g) in *.
  split.
  - assert (0 <= (1 - b) * (x - lo)) by (apply Rmult_le_pos; lra).
    assert (0 <= b * (y - lo)) by (apply Rmult_le_pos; lra).
    lra.
  - assert (0 <= (1 - b) * (hi - x)) by (apply Rmult_le_pos; lra).
    assert (0 <= b * (hi - y)) by (apply Rmult_le_pos; lra).
    lra.
Qed.

Lemma run_between (xs : list R) (lo hi : R) :
  forall g : OnePole.t R,
    OnePole.a0 g = 1 - OnePole.b1 g ->
    0 <= OnePole.b1 g <= 1 ->
    lo <= OnePole.y0 g <= hi ->
    Forall (fun x => lo <= x <= hi) xs ->
    Forall (fun o => lo <= o <= hi) (fst (OnePole_run g xs)) /\
    lo <= OnePole.y0 (snd (OnePole_run g xs)) <= hi.
Proof.
  induction xs as [| x xs IH]; intros g Ha Hb Hy Hxs; cbn [OnePole_run fst snd].
  - split; [constructor | exact Hy].
  - inversion Hxs as [| ? ? Hx Hrest]; subst.
    pose proof (Process_between g x lo hi Ha Hb Hy Hx) as Hout.
    destruct (IH (snd (OnePole.Process g x))) as [Houts Hfin];
      try assumption.
    split; [constructor; assumption | exact Hfin].
Qed.

(** Retained output after [n] calls with the same sample [v]. *)
Lemma feed_const_closed_form (n : nat) (v : R) :
  forall g : OnePole.t R,
    OnePole.a0 g = 1 - OnePole.b1 g ->
    OnePole.y0 (OnePole.feed n g v)
    = v + OnePole.b1 g ^ n * (OnePole.y0 g - v).
Proof.
  induction n as [| n IH]; intros g Hg; cbn [OnePole.feed].
  - cbn; ring.
  - rewrite IH by (cbn; exact Hg).
    cbn; rewrite Hg; ring.
Qed.

(** With gains [a0 = 0], [b1 = 1] a call changes nothing. *)
Lemma Process_hold (g : OnePole.t R) (x : R) :
  OnePole.a0 g = 0 -> OnePole.b1 g = 1 ->
  OnePole.Process g x = (OnePole.y0 g, g).
Proof.
  destruct g as [[y] a b]; cbn; intros -> ->.
  unfold OnePole.Process, OnePole.set_y0, OnePole.y0; cbn.
  replace (0 * x + 1 * y) with y by ring.
  reflexivity.
Qed.

End OnePoleScalar.

(** X4.  No overshoot, in exact real arithmetic: on a scalar filter
    configured with a positive cutoff and sample rate, if the retained
    output and every sample lie in [[lo, hi]], so does every value
    [Process] returns and the output retained at the end. *)
Theorem OnePole_outputs_bounded
    (this : OnePole.t R) (fc fs lo hi : R) (xs : list R) :
  0 < fc -> 0 < fs ->
  lo <= OnePole.GetValue this <= hi ->
  Forall (fun x => lo <= x <= hi) xs ->
  let r := OnePole_run (OnePole.SetFc this fc fs) xs in
  Forall (fun o => lo <= o <= hi) (fst r) /\
  lo <= OnePole.GetValue (snd r) <= hi.
Proof.
  intros Hfc Hfs Hy Hxs r; subst r.
  pose proof (OnePole_feedback_range fc fs Hfc Hfs) as [H0 H1].
  apply run_between; try assumption.
  - reflexivity.
  - cbn; lra.
Qed.

Lemma OnePole_outputs_bounded_witness :
  let r := OnePole_run (OnePole.SetFc (OnePole.OnePole0 0) 10 1000)
             [1; 0; 1] in
  Forall (fun o => 0 <= o <= 1) (fst r) /\
  0 <= OnePole.GetValue (snd r) <= 1.
Proof.
  apply (OnePole_outputs_bounded (OnePole.OnePole0 0) 10 1000 0 1 [1; 0; 1]);
    [lra | lra | cbn; lra | repeat constructor; lra].
Defined.

(** X5.  Constant input, in exact real arithmetic: on a scalar filter
    configured with a positive cutoff and sample rate, after [n] calls
    [Process(v)] the retained output is [v + b1^n * (y - v)], [y]
    being the output retained before; it converges to [v]. *)
Theorem OnePole_constant_input
    (this : OnePole.t R) (fc fs v : R) :
  0 < fc -> 0 < fs ->
  let f := OnePole.SetFc this fc fs in
  (forall n : nat,
     OnePole.GetValue (OnePole.feed n f v)
     = v + OnePole.b1 f ^ n * (OnePole.GetValue this - v)) /\
  Un_cv (fun n => OnePole.GetValue (OnePole.feed n f v)) v.
Proof.
  intros Hfc Hfs f.
  pose proof (OnePole_feedback_range fc fs Hfc Hfs) as [H0 H1].
  assert (Hform : forall n : nat,
            OnePole.GetValue (OnePole.feed n f v)
            = v + OnePole.b1 f ^ n * (OnePole.GetValue this - v)).
  { intros n.
    change (OnePole.GetValue (OnePole.feed n f v))
      with (OnePole.y0 (OnePole.feed n f v)).
    rewrite feed_const_closed_form by reflexivity.
    reflexivity. }
  split; [exact Hform |].
  intros eps Heps.
  set (d := OnePole.GetValue this - v) in *.
  assert (Habs : Rabs (OnePole.b1 f) < 1)
    by (subst f; cbn; rewrite Rabs_pos_eq; lra).
  assert (Hscale : 0 < eps / (Rabs d + 1)).
  { apply Rdiv_lt_0_compat; [exact Heps |].
    pose proof (Rabs_pos d); lra. }
  destruct (pow_lt_1_zero (OnePole.b1 f) Habs _ Hscale) as [N HN].
  exists N; intros n Hn.
  rewrite Hform; unfold R_dist.
  replace (v + OnePole.b1 f ^ n * d - v) with (OnePole.b1 f ^ n * d) by ring.
  rewrite Rabs_mult.
  specialize (HN n Hn).
  pose proof (Rabs_pos d) as Hd.
  pose proof (Rabs_pos (OnePole.b1 f ^ n)) as Hp.
  apply Rle_lt_trans with (Rabs (OnePole.b1 f ^ n) * (Rabs d + 1)).
  - apply Rmult_le_compat_l; lra.
  - apply (Rmult_lt_compat_r (Rabs d + 1)) in HN; [| lra].
    unfold Rdiv in HN; rewrite Rmult_assoc, Rinv_l, Rmult_1_r in HN by lra.
    exact HN.
Qed.

Lemma OnePole_constant_input_witness :
  let f := OnePole.SetFc (OnePole.OnePole0 0) 10 1000 in
  (forall n : nat,
     OnePole.GetValue (OnePole.feed n f 5)
     = 5 + OnePole.b1 f ^ n * (OnePole.GetValue (OnePole.OnePole0 0) - 5)) /\
  Un_cv (fun n => OnePole.GetValue (OnePole.feed n f 5)) 5.
Proof.
  apply (OnePole_constant_input (OnePole.OnePole0 0) 10 1000 5); lra.
Defined.

(** X6.  Cutoff zero freezes a scalar filter: after [SetFc(0, fs)] the
    gains are [a0 = 0], [b1 = 1], every [Process] call returns the
    output retained before, whatever the samples, and leaves the
    instance as it was. *)
Theorem OnePole_zero_cutoff_holds
    (this : OnePole.t R) (fs : R) (xs : list R) :
  fs <> 0 ->
  let f := OnePole.SetFc this 0 fs in
  OnePole.a0 f = 0 /\ OnePole.b1 f = 1 /\
  OnePole_run f xs = (map (fun _ => OnePole.GetValue this) xs, f).
Proof.
  intros Hfs f.
  assert (Hb : OnePole.b1 f = 1).
  { subst f; cbn.
    replace (-2 * PI * 0 / fs) with 0 by (field; exact Hfs).
    apply exp_0. }
  assert (Ha : OnePole.a0 f = 0) by (subst f; cbn in *; lra).
  assert (Hy : OnePole.y0 f = OnePole.GetValue this) by reflexivity.
  repeat split; try assumption.
  rewrite <- Hy; clear Hy.
  clearbody f.
  induction xs as [| x xs IH]; cbn [OnePole_run map].
  - reflexivity.
  - rewrite (Process_hold f x Ha Hb); cbn [fst snd]; rewrite IH; reflexivity.
Qed.

Lemma OnePole_zero_cutoff_holds_witness :
  let f := OnePole.SetFc (OnePole.SetValue (OnePole.OnePole0 0) 7) 0 1000 in
  OnePole.a0 f = 0 /\ OnePole.b1 f = 1 /\
  OnePole_run f [1; 2; 3]
  = (map (fun _ => OnePole.GetValue (OnePole.SetValue (OnePole.OnePole0 0) 7))
         [1; 2; 3], f).
Proof.
  apply (OnePole_zero_cutoff_holds
           (OnePole.SetValue (OnePole.OnePole0 0) 7) 1000 [1; 2; 3]); lra.
Defined.

(** X7.  An unconfigured scalar filter mutes its input: built by the
    default constructor (both gains zero), every [Process] call returns
    zero, whatever the samples and the initial output. *)
Theorem OnePole_unconfigured_mutes (init : R) (xs : list R) :
  fst (OnePole_run (OnePole.OnePole0 init) xs) = map (fun _ => 0) xs.
Proof.
  assert (Hgen : forall g : OnePole.t R,
            OnePole.a0 g = 0 -> OnePole.b1 g = 0 ->
            fst (OnePole_run g xs) = map (fun _ => 0) xs).
  { induction xs as [| x xs IH]; intros g Ha Hb; cbn [OnePole_run map fst].
    - reflexivity.
    - f_equal.
      + unfold OnePole.Process; cbn [fst]; unfold OnePole.y0 at 1; cbn.
        rewrite Ha, Hb; ring.
      + apply IH; cbn; assumption. }
  apply Hgen; reflexivity.
Qed.

(** ** Further properties of [BiQuad]: the coefficients *)

Section BiQuadCoefficients.
Variables k q : R.
Hypothesis k_pos : 0 < k.
Hypothesis q_pos : 0 < q.

Lemma kQuadDenom_pos : 0 < k * k + k / q + 1.
Proof.
  assert (0 < k / q) by (apply Rdiv_lt_0_compat; assumption).
  assert (0 < k * k) by (apply Rmult_lt_0_compat; assumption).
  lra.
Qed.

(** The five quotients of [SetFc], as bounds. *)
Lemma quotients_stable :
  let d := k * k + k / q + 1 in
  0 < k * k / d < 1 /\
  -1 < (k * k - k / q + 1) / d < 1 /\
  Rabs (2 * (k * k - 1) / d) < 1 + (k * k - k / q + 1) / d.
Proof.
  intros d.
  pose proof kQuadDenom_pos as Hd; fold d in Hd.
  assert (Hr : 0 < k / q) by (apply Rdiv_lt_0_compat; assumption).
  assert (Hkk : 0 < k * k) by (apply Rmult_lt_0_compat; assumption).
  assert (Hid : 0 < / d) by (apply Rinv_0_lt_compat; exact Hd).
  assert (Hlt : forall a b : R, a < b -> a / d < b / d).
  { intros a b Hab; unfold Rdiv; apply Rmult_lt_compat_r; assumption. }
  assert (Hone : d / d = 1) by (field; lra).
  assert (Hzero : 0 / d = 0) by (field; lra).
  assert (Hmone : - d / d = -1) by (field; lra).
  assert (Hb2 : (k * k - k / q + 1) < d) by (unfold d; lra).
  assert (Hb2' : - d < (k * k - k / q + 1)) by (unfold d; lra).
  assert (Hsum : 1 + (k * k - k / q + 1) / d = (2 * (k * k) + 2) / d).
  { transitivity (d / d + (k * k - k / q + 1) / d);
      [rewrite Hone; reflexivity | unfold d, Rdiv; ring]. }
  pose proof (Hlt _ _ Hkk) as Ha0; rewrite Hzero in Ha0.
  assert (Ha1 : k * k < d) by (unfold d; lra).
  apply Hlt in Ha1, Hb2, Hb2'; rewrite Hone in Ha1, Hb2; rewrite Hmone in Hb2'.
  repeat split; try assumption.
  rewrite Hsum; apply Rabs_def1.
  - apply Hlt; lra.
  - replace (- ((2 * (k * k) + 2) / d)) with ((- (2 * (k * k) + 2)) / d)
      by (field; lra).
    apply Hlt; lra.
Qed.

(** The discriminant of the denominator polynomial. *)
Lemma discriminant_form :
  let d := k * k + k / q + 1 in
  let b1 := 2 * (k * k - 1) / d in
  let b2 := (k * k - k / q + 1) / d in
  b1 * b1 - 4 * b2 = 4 * (k * k) * ((1 - 2 * q) * (1 + 2 * q)) / (q * q * (d * d)).
Proof.
  intros d b1 b2; subst b1 b2.
  pose proof kQuadDenom_pos as Hd; fold d in Hd.
  assert (Hkkq : 0 < k * k * q)
    by (apply Rmult_lt_0_compat; [apply Rmult_lt_0_compat |]; assumption).
  unfold d; field; repeat split; lra.
Qed.

Lemma discriminant_scale_pos :
  let d := k * k + k / q + 1 in
  0 < 4 * (k * k) / (q * q * (d * d)).
Proof.
  intros d.
  pose proof kQuadDenom_pos as Hd; fold d in Hd.
  apply Rdiv_lt_0_compat.
  - assert (0 < k * k) by (apply Rmult_lt_0_compat; assumption). lra.
  - repeat apply Rmult_lt_0_compat; assumption.
Qed.

Lemma discriminant_sign :
  let d := k * k + k / q + 1 in
  let b1 := 2 * (k * k - 1) / d in
  let b2 := (k * k - k / q + 1) / d in
  (q = 0.5 -> b1 * b1 - 4 * b2 = 0) /\
  (0.5 < q -> b1 * b1 - 4 * b2 < 0) /\
  (q < 0.5 -> 0 < b1 * b1 - 4 * b2).
Proof.
  intros d b1 b2.
  pose proof discriminant_form as Hform; cbn zeta in Hform.
  fold d in Hform; fold b1 b2 in Hform.
  pose proof discriminant_scale_pos as Hs; cbn zeta in Hs; fold d in Hs.
  assert (Hdisc : b1 * b1 - 4 * b2
                  = 4 * (k * k) / (q * q * (d * d))
                    * ((1 - 2 * q) * (1 + 2 * q)))
    by (rewrite Hform; unfold Rdiv; ring).
  clearbody b1 b2; clear Hform.
  set (s := 4 * (k * k) / (q * q * (d * d))) in *; clearbody s.
  rewrite Hdisc; repeat split.
  - intros Hq; replace (1 - 2 * q) with 0 by lra; ring.
  - intros Hq.
    assert (0 < s * ((2 * q - 1) * (1 + 2 * q)))
      by (repeat apply Rmult_lt_0_compat; lra).
    lra.
  - intros Hq; repeat apply Rmult_lt_0_compat; lra.
Qed.

(** The coefficients sum to unity gain at DC. *)
Lemma quotients_dc :
  let d := k * k + k / q + 1 in
  k * k / d + 2 * (k * k / d) + k * k / d
  - 2 * (k * k - 1) / d - (k * k - k / q + 1) / d = 1.
Proof.
  intros d; unfold d.
  assert (Hkkq : 0 < k * k * q)
    by (apply Rmult_lt_0_compat; [apply Rmult_lt_0_compat |]; assumption).
  field; split; lra.
Qed.

End BiQuadCoefficients.

(** X8.  Stability, in exact real arithmetic: for [0 < fc < fs/2] and
    [q > 0] the coefficients
    set by [BiQuad::SetFc(fc, fs, q)] satisfy [0 < a0 < 1],
    [-1 < b2 < 1] and [|b1| < 1 + b2], the conditions under which both
    poles of the recursion lie inside the unit circle. *)
Theorem BiQuad_SetFc3_stable
    (T : Type) (this : BiQuad.t T) (fc fs q : R) :
  0 < fc -> fc < fs / 2 -> 0 < q ->
  let f := BiQuad.SetFc3 this fc fs q in
  0 < BiQuad.a0 f < 1 /\
  -1 < BiQuad.b2 f < 1 /\
  Rabs (BiQuad.b1 f) < 1 + BiQuad.b2 f.
Proof.
  intros Hfc Hny Hq f; subst f; cbn.
  apply quotients_stable; [apply tan_cutoff_pos |]; assumption.
Qed.

Lemma BiQuad_SetFc3_stable_witness :
  let f := BiQuad.SetFc3 zero_mem 10 1000 2 in
  0 < BiQuad.a0 f < 1 /\
  -1 < BiQuad.b2 f < 1 /\
  Rabs (BiQuad.b1 f) < 1 + BiQuad.b2 f.
Proof.
  apply (BiQuad_SetFc3_stable R zero_mem 10 1000 2); lra.
Defined.

(** X9.  Damping, in exact real arithmetic: for [0 < fc < fs/2] and
    [q > 0], the sign of [b1^2 - 4*b2] is decided by [q] alone: zero at
    [q = 0.5] (a double real pole, the default of the two-argument
    [SetFc]), negative for [q > 0.5] (complex poles) and positive for
    [q < 0.5]. *)
Theorem BiQuad_SetFc3_damping
    (T : Type) (this : BiQuad.t T) (fc fs q : R) :
  0 < fc -> fc < fs / 2 -> 0 < q ->
  let f := BiQuad.SetFc3 this fc fs q in
  let disc := BiQuad.b1 f * BiQuad.b1 f - 4 * BiQuad.b2 f in
  (q = 0.5 -> disc = 0) /\
  (0.5 < q -> disc < 0) /\
  (q < 0.5 -> 0 < disc) /\
  (let g := BiQuad.SetFc this fc fs in
   BiQuad.b1 g * BiQuad.b1 g = 4 * BiQuad.b2 g).
Proof.
  intros Hfc Hny Hq f disc.
  pose proof (tan_cutoff_pos fc fs Hfc Hny) as Hk.
  destruct (discriminant_sign _ q Hk Hq) as [Heq [Hgt Hlt]].
  assert (Hhalf : 0 < 0.5) by lra.
  destruct (discriminant_sign _ 0.5 Hk Hhalf) as [Hdef _].
  subst disc f; cbn.
  repeat split; try assumption.
  specialize (Hdef eq_refl); lra.
Qed.

Lemma BiQuad_SetFc3_damping_witness :
  let f := BiQuad.SetFc3 zero_mem 10 1000 2 in
  let disc := BiQuad.b1 f * BiQuad.b1 f - 4 * BiQuad.b2 f in
  (2 = 0.5 -> disc = 0) /\
  (0.5 < 2 -> disc < 0) /\
  (2 < 0.5 -> 0 < disc) /\
  (let g := BiQuad.SetFc zero_mem 10 1000 in
   BiQuad.b1 g * BiQuad.b1 g = 4 * BiQuad.b2 g).
Proof.
  apply (BiQuad_SetFc3_damping R zero_mem 10 1000 2); lra.
Defined.

(** ** Further properties of [BiQuad]: the update *)

(** At unity DC gain, a scalar instance whose whole state is [v] is a
    fixed point of [Process(v)]. *)
Lemma Process_dc_fixed (g : BiQuad.t R) (v : R) :
  BiQuad.a0 g + BiQuad.a1 g + BiQuad.a2 g - BiQuad.b1 g - BiQuad.b2 g = 1 ->
  BiQuad.history g = (v, v, v, v, v) ->
  BiQuad.Process g v = (v, g).
Proof.
  destruct g as [[y] a0 a1 a2 b0 b1 b2 x1 x2 y1 y2].
  unfold BiQuad.history, BiQuad.y0; cbn; intros Hdc Hh.
  injection Hh as -> -> -> -> ->.
  unfold BiQuad.Process, BiQuad.set_y0, BiQuad.set_x1, BiQuad.set_x2,
    BiQuad.set_y1, BiQuad.set_y2, BiQuad.y0; cbn.
  replace (a0 * v + a1 * v + a2 * v - b1 * v - b2 * v) with v.
  - reflexivity.
  - replace (a0 * v + a1 * v + a2 * v - b1 * v - b2 * v)
      with ((a0 + a1 + a2 - b1 - b2) * v) by ring.
    rewrite Hdc; ring.
Qed.

(** X10.  A constant signal passes unchanged, in exact real
    arithmetic: on a scalar biquad configured with [0 < fc < fs/2],
    [q > 0] and reset by [SetValue(v)], every [Process(v)] returns [v]
    and leaves the instance as it was. *)
Theorem BiQuad_constant_passes
    (this : BiQuad.t R) (fc fs q v : R) (n : nat) :
  0 < fc -> fc < fs / 2 -> 0 < q ->
  let g := BiQuad.SetValue (BiQuad.SetFc3 this fc fs q) v in
  BiQuad_run g (repeat v n) = (repeat v n, g).
Proof.
  intros Hfc Hny Hq g.
  pose proof (tan_cutoff_pos fc fs Hfc Hny) as Hk.
  assert (Hstep : BiQuad.Process g v = (v, g)).
  { apply Process_dc_fixed; [| reflexivity].
    subst g; cbn.
    apply (quotients_dc _ q Hk Hq). }
  clearbody g.
  induction n as [| n IH]; cbn [repeat BiQuad_run].
  - reflexivity.
  - rewrite Hstep; cbn [fst snd]; rewrite IH; reflexivity.
Qed.

Lemma BiQuad_constant_passes_witness :
  let g := BiQuad.SetValue (BiQuad.SetFc3 zero_mem 10 1000 2) 5 in
  BiQuad_run g (repeat 5 3) = (repeat 5 3, g).
Proof.
  apply (BiQuad_constant_passes zero_mem 10 1000 2 5 3); lra.
Defined.

(** X11.  Cutoff zero: [SetFc(0, fs, q)] stores [a0 = a1 = a2 = 0],
    [b0 = 1], [b1 = -2], [b2 = 1]; a scalar [Process] then ignores its
    sample and returns [2*y1 - y2]. *)
Theorem BiQuad_zero_cutoff
    (this : BiQuad.t R) (fs q : R) :
  fs <> 0 -> q <> 0 ->
  let f := BiQuad.SetFc3 this 0 fs q in
  BiQuad.coefficients f = (0, 0, 0, 1, -2, 1) /\
  forall x : R,
    fst (BiQuad.Process f x) = 2 * BiQuad.y1 this - BiQuad.y2 this.
Proof.
  intros Hfs Hq f.
  assert (Hk : tan (PI * 0 / fs) = 0).
  { replace (PI * 0 / fs) with 0 by (field; exact Hfs). apply tan_0. }
  assert (Hc : BiQuad.coefficients f = (0, 0, 0, 1, -2, 1)).
  { subst f; unfold BiQuad.coefficients, BiQuad.SetFc3; cbn; rewrite Hk.
    repeat f_equal; field; exact Hq. }
  split; [exact Hc |].
  intros x; subst f.
  unfold BiQuad.Process, BiQuad.SetFc3; cbn [fst]; unfold BiQuad.y0 at 1; cbn.
  rewrite Hk; field; exact Hq.
Qed.

Lemma BiQuad_zero_cutoff_witness :
  let f := BiQuad.SetFc3 zero_mem 0 1000 2 in
  BiQuad.coefficients f = (0, 0, 0, 1, -2, 1) /\
  forall x : R,
    fst (BiQuad.Process f x) = 2 * BiQuad.y1 zero_mem - BiQuad.y2 zero_mem.
Proof.
  apply (BiQuad_zero_cutoff zero_mem 1000 2); lra.
Defined.

Section BiQuadGeneric.
Context {T : Type} `{Signal T}.

Lemma BiQuad_run_app (xs ys : list T) :
  forall this : BiQuad.t T,
    BiQuad_run this (xs ++ ys)
    = (fst (BiQuad_run this xs)
         ++ fst (BiQuad_run (snd (BiQuad_run this xs)) ys),
       snd (BiQuad_run (snd (BiQuad_run this xs)) ys)).
Proof.
  induction xs as [| x xs IH]; intros this; cbn [app BiQuad_run fst snd].
  - destruct (BiQuad_run this ys); reflexivity.
  - rewrite IH; reflexivity.
Qed.


End BiQuadGeneric.

Lemma BiQuad_run_ref_app
    (T : Type) (S : Signal T) (rs ss : list (BiQuad.sample T)) :
  forall this : BiQuad.t T,
    BiQuad_run_ref this (rs ++ ss)
    = (fst (BiQuad_run_ref this rs)
         ++ fst (BiQuad_run_ref (snd (BiQuad_run_ref this rs)) ss),
       snd (BiQuad_run_ref (snd (BiQuad_run_ref this rs)) ss)).
Proof.
  induction rs as [| r rs IH]; intros this; cbn [app BiQuad_run_ref fst snd].
  - destruct (BiQuad_run_ref this ss); reflexivity.
  - rewrite IH; reflexivity.
Qed.

Lemma BiQuad_run_ref_length
    (T : Type) (S : Signal T) (rs : list (BiQuad.sample T)) :
  forall this : BiQuad.t T,
    length (fst (BiQuad_run_ref this rs)) = length rs.
Proof.
  induction rs as [| r rs IH]; intros this;
    cbn [BiQuad_run_ref fst snd length].
  - reflexivity.
  - f_equal; apply IH.
Qed.

(** X12.  The history is a window of two: after any sequence of
    [Process] calls ending with the arguments [a] then [b], [y2] is the
    value returned for [a], [y1] is the value returned for [b], which
    is also [GetValue()], and [x2], [x1] hold what the two calls
    stored: the sample when the argument was an object outside the
    instance, the value returned by that call when the argument was
    the reference to the retained output.  One value is returned per
    call. *)
Theorem BiQuad_history_window
    (T : Type) (S : Signal T) (this : BiQuad.t T)
    (rs : list (BiQuad.sample T)) (a b : BiQuad.sample T) :
  let r := BiQuad_run_ref this (rs ++ [a; b]) in
  exists (outs : list T) (oa ob : T),
    fst r = outs ++ [oa; ob] /\
    length outs = length rs /\
    BiQuad.x2 (snd r) = match a with
                        | BiQuad.Outside x => x
                        | BiQuad.RetainedOutput => oa
                        end /\
    BiQuad.x1 (snd r) = match b with
                        | BiQuad.Outside x => x
                        | BiQuad.RetainedOutput => ob
                        end /\
    BiQuad.y2 (snd r) = oa /\ BiQuad.y1 (snd r) = ob /\
    BiQuad.GetValue (snd r) = ob.
Proof.
  intros r; subst r; rewrite BiQuad_run_ref_app; cbn [fst snd].
  set (mid := snd (BiQuad_run_ref this rs)).
  exists (fst (BiQuad_run_ref this rs)),
         (fst (BiQuad.ProcessRef mid a)),
         (fst (BiQuad.ProcessRef (snd (BiQuad.ProcessRef mid a)) b)).
  split; [reflexivity |].
  split; [apply BiQuad_run_ref_length |].
  destruct a, b; cbn; repeat split.
Qed.


(** ** How the mutators and constructors compose *)

(** X14.  Configuration and reset compose freely: a later [SetFc]
    replaces an earlier one whatever its arguments were, a later
    [SetValue] replaces an earlier one, and [SetFc] commutes with
    [SetValue]; for [OnePole] and for [BiQuad]. *)
Theorem mutators_compose
    (T : Type) (f : OnePole.t T) (g : BiQuad.t T)
    (fc fs q fc' fs' q' : R) (v v' : T) :
  OnePole.SetFc (OnePole.SetFc f fc' fs') fc fs = OnePole.SetFc f fc fs /\
  OnePole.SetValue (OnePole.SetValue f v') v = OnePole.SetValue f v /\
  OnePole.SetFc (OnePole.SetValue f v) fc fs
    = OnePole.SetValue (OnePole.SetFc f fc fs) v /\
  BiQuad.SetFc3 (BiQuad.SetFc3 g fc' fs' q') fc fs q
    = BiQuad.SetFc3 g fc fs q /\
  BiQuad.SetFc (BiQuad.SetFc3 g fc' fs' q') fc fs = BiQuad.SetFc g fc fs /\
  BiQuad.SetValue (BiQuad.SetValue g v') v = BiQuad.SetValue g v /\
  BiQuad.SetFc3 (BiQuad.SetValue g v) fc fs q
    = BiQuad.SetValue (BiQuad.SetFc3 g fc fs q) v.
Proof.
  repeat split.
Qed.

(** X15.  What construction leaves to the storage.  The vector and
    quaternion one-pole filters and [BiQuadVector3(fc, fs)] are fully
    determined by their arguments.  [BiQuad(fc, fs)] sets the six
    coefficients and leaves the retained output and the history as the
    storage held them; [BiQuadVector3()] zeroes output and history,
    sets [b2 = 0], and leaves the other five coefficients as the
    storage held them. *)
Theorem constructors_and_storage
    (T : Type) (mem mem' : BiQuad.t T)
    (vmem vmem' : BiQuad.t Vector3.Vector3d)
    (vinit vinit' : Vector3.Vector3d)
    (qinit qinit' : OnePoleQuaternion.Quaterniond) (fc fs : R) :
  Vector3.OnePoleVector3_0 vinit = Vector3.OnePoleVector3_0 vinit' /\
  Vector3.OnePoleVector3_2 vinit fc fs
    = Vector3.OnePoleVector3_2 vinit' fc fs /\
  OnePoleQuaternion.OnePoleQuaternion0 qinit
    = OnePoleQuaternion.OnePoleQuaternion0 qinit' /\
  OnePoleQuaternion.OnePoleQuaternion2 qinit fc fs
    = OnePoleQuaternion.OnePoleQuaternion2 qinit' fc fs /\
  Vector3.BiQuadVector3_2 vmem fc fs = Vector3.BiQuadVector3_2 vmem' fc fs /\
  BiQuad.coefficients (BiQuad.BiQuad2 mem fc fs)
    = BiQuad.coefficients (BiQuad.BiQuad2 mem' fc fs) /\
  BiQuad.history (BiQuad.BiQuad2 mem fc fs) = BiQuad.history mem /\
  BiQuad.history (Vector3.BiQuadVector3_0 vmem)
    = (Vector3.zero, Vector3.zero, Vector3.zero, Vector3.zero,
       Vector3.zero) /\
  BiQuad.coefficients (Vector3.BiQuadVector3_0 vmem)
    = (BiQuad.a0 vmem, BiQuad.a1 vmem, BiQuad.a2 vmem,
       BiQuad.b0 vmem, BiQuad.b1 vmem, 0).
Proof.
  repeat split.
Qed.

(** ** The interpolation fraction of [OnePoleQuaternion] *)

Lemma OnePoleQuaternion_feed_gains
    (Slerp : R -> OnePoleQuaternion.Quaterniond ->
             OnePoleQuaternion.Quaterniond -> OnePoleQuaternion.Quaterniond)
    (xs : list OnePoleQuaternion.Quaterniond) :
  forall this : OnePoleQuaternion.t,
    OnePole.a0 (OnePoleQuaternion.feed Slerp this xs) = OnePole.a0 this /\
    OnePole.b1 (OnePoleQuaternion.feed Slerp this xs) = OnePole.b1 this.
Proof.
  induction xs as [| x xs IH]; intros this.
  - split; reflexivity.
  - exact (IH (snd (OnePoleQuaternion.Process Slerp this x))).
Qed.

(** X16.  The fraction handed to [Slerp] never changes while samples
    are processed.  Built with a positive cutoff and sample rate it is
    [1 - exp(-2*pi*fc/fs)], in exact real arithmetic strictly between
    zero and one, at every call; built by the default constructor it
    is zero at every call. *)
Theorem OnePoleQuaternion_fraction
    (Slerp : R -> OnePoleQuaternion.Quaterniond ->
             OnePoleQuaternion.Quaterniond -> OnePoleQuaternion.Quaterniond)
    (init : OnePoleQuaternion.Quaterniond) (fc fs : R)
    (xs : list OnePoleQuaternion.Quaterniond) :
  0 < fc -> 0 < fs ->
  let f := OnePoleQuaternion.feed Slerp
             (OnePoleQuaternion.OnePoleQuaternion2 init fc fs) xs in
  let f0 := OnePoleQuaternion.feed Slerp
              (OnePoleQuaternion.OnePoleQuaternion0 init) xs in
  OnePole.a0 f = 1 - exp (-2 * PI * fc / fs) /\
  0 < OnePole.a0 f < 1 /\
  OnePole.a0 f0 = 0.
Proof.
  intros Hfc Hfs f f0.
  pose proof (OnePole_feedback_range fc fs Hfc Hfs) as [H0 H1].
  destruct (OnePoleQuaternion_feed_gains Slerp xs
              (OnePoleQuaternion.OnePoleQuaternion2 init fc fs)) as [Ha _].
  destruct (OnePoleQuaternion_feed_gains Slerp xs
              (OnePoleQuaternion.OnePoleQuaternion0 init)) as [Ha0 _].
  fold f in Ha; fold f0 in Ha0.
  rewrite Ha, Ha0; cbn.
  repeat split; lra.
Qed.

Lemma OnePoleQuaternion_fraction_witness :
  let f := OnePoleQuaternion.feed nlerp
             (OnePoleQuaternion.OnePoleQuaternion2
                OnePoleQuaternion.identity 10 1000)
             [OnePoleQuaternion.identity] in
  let f0 := OnePoleQuaternion.feed nlerp
              (OnePoleQuaternion.OnePoleQuaternion0
                 OnePoleQuaternion.identity)
              [OnePoleQuaternion.identity] in
  OnePole.a0 f = 1 - exp (-2 * PI * 10 / 1000) /\
  0 < OnePole.a0 f < 1 /\
  OnePole.a0 f0 = 0.
Proof.
  apply (OnePoleQuaternion_fraction nlerp OnePoleQuaternion.identity
           10 1000 [OnePoleQuaternion.identity]); lra.
Defined.

(** ** [OnePole<double>::SetFc] where [exp] saturates *)

Module OnePoleDoubleFacts.
Import PrimFloat.
Local Open Scope float_scope.


(** X17.  In double arithmetic the gains saturate with [exp].  Where
    the exponent [-2.0 * M_PI * fc / fs] evaluates to 710 or more,
    [SetFc] stores [b1 = +infinity] and [a0 = -infinity], whose sum is
    NaN; where it evaluates to -746 or less, [SetFc] stores [b1 = 0]
    and [a0 = 1].  The retained output is left as it was. *)
Theorem SetFc_saturates (this : OnePoleDouble.t) (fc fs : float) :
  let e := -2.0 * OnePoleDouble.M_PI * fc / fs in
  (710 <=? e) = true \/ ((710 <=? e) = false /\ (e <=? -746) = true) ->
  OnePoleDouble.SetFc this fc fs
  = Some (if 710 <=? e
          then OnePoleDouble.mk (OnePoleDouble.y0 this) neg_infinity infinity
          else OnePoleDouble.mk (OnePoleDouble.y0 this) 1 0) /\
  is_nan (neg_infinity + infinity) = true.
Proof.
  intros e [Hover | [Hnot Hunder]];
    unfold OnePoleDouble.SetFc, OnePoleDouble.exp; fold e.
  - rewrite Hover; split; reflexivity.
  - rewrite Hnot, Hunder; split; reflexivity.
Qed.

Lemma SetFc_saturates_witness :
  OnePoleDouble.SetFc (OnePoleDouble.OnePole0 5) (-200) 1
    = Some (OnePoleDouble.mk 5 neg_infinity infinity) /\
  OnePoleDouble.SetFc (OnePoleDouble.OnePole0 5) 200 1
    = Some (OnePoleDouble.mk 5 1 0).
Proof.
  split.
  - exact (proj1 (SetFc_saturates (OnePoleDouble.OnePole0 5) (-200) 1
                    (or_introl eq_refl))).
  - exact (proj1 (SetFc_saturates (OnePoleDouble.OnePole0 5) 200 1
                    (or_intror (conj eq_refl eq_refl)))).
Defined.

End OnePoleDoubleFacts.
